(** * rust-cas: a shallow embedding of [src/cas.rs]

    The CAS client of [cas.rs] is modelled as follows.
    - Rust strings are Rocq [string]s (byte sequences of valid UTF-8).
    - [Result<T, E>] is [result T E]; a Rust panic (an out-of-bounds
      [Vec] index) is the [Panicked] outcome.
    - The HTTP transport ([hyper::Client]) and the XML tokenizer
      ([xml::reader::EventReader]) are external: a transport is a function
      from the requested URL to either a [HyperError] or the list of parse
      events the tokenizer yields for the body.  Every call records the URL
      it hands to the transport, so the requests issued are observable.
    - [url::Url] of the rust-url versions of the time is a record with a
      serialized scheme part, an optional query and an optional fragment;
      [set_query_from_pairs], [query_pairs] and the
      [application/x-www-form-urlencoded] codec are written out. *)

From Stdlib Require Import String Ascii List Bool Arith Lia.
Import ListNotations.
Open Scope string_scope.
Open Scope list_scope.

(** ** Rust's [Result] *)

Inductive result (T E : Type) : Type :=
| Ok (t : T)
| Err (e : E).
Arguments Ok {T E} t.
Arguments Err {T E} e.

(** ** Errors of the external libraries *)

(** [url::ParseError] (the variants of rust-url's parser). *)
Inductive ParseError : Type :=
| EmptyHost
| InvalidScheme
| InvalidPort
| InvalidIpv6Address
| InvalidDomainCharacter
| InvalidCharacter
| InvalidBackslash
| InvalidPercentEncoded
| InvalidAtSymbolInUser
| ExpectedTwoSlashes
| NonUrlCodePoint
| RelativeUrlWithUnsupportedScheme
| RelativeUrlWithCannotBeABaseBase
| RelativeUrlWithoutBase.

(** [hyper::error::Error] and [xml::reader::Error], kept opaque up to a
    message. *)
Record HyperError := mkHyperError { hyper_msg : string }.
Record XmlError := mkXmlError { xml_row : nat; xml_col : nat; xml_msg : string }.

(** ** [url::Url] *)

Record Url := mkUrl {
  scheme : string;
  (** the serialized scheme data ([//host:port/path] or a non-relative
      path) *)
  scheme_data : string;
  query : option string;
  fragment : option string
}.

(** [Url::serialize]: [scheme ":" scheme_data ["?" query] ["#" fragment]]. *)
Definition url_serialize (u : Url) : string :=
  scheme u ++ ":" ++ scheme_data u
  ++ match query u with Some q => "?" ++ q | None => "" end
  ++ match fragment u with Some f => "#" ++ f | None => "" end.

(** ** The XML parse events of [xml::reader::XmlEvent] *)

Record OwnedName := mkName {
  local_name : string;
  namespace : option string;
  prefix : option string
}.

Record OwnedAttribute := mkAttr {
  attr_name : OwnedName;
  value : string
}.

(** [xml::namespace::Namespace]: prefix to URI bindings. *)
Definition Namespace := list (string * string).

Inductive XmlEvent : Type :=
| StartDocument (version : string) (encoding : string) (standalone : option bool)
| EndDocument
| ProcessingInstruction (pi_name : string) (data : option string)
| StartElement (name : OwnedName) (attributes : list OwnedAttribute)
    (ns : Namespace)
| EndElement (name : OwnedName)
| CData (s : string)
| Comment (s : string)
| Characters (s : string)
| Whitespace (s : string).

(** ** The types of [cas.rs] *)

Definition Name := string.
Definition TicketError := string.

Record CasClient := mkCasClient {
  login_url : Url;
  logout_url : Url;
  verify_url : Url;
  service_url : Url
}.

Inductive ServiceResponse : Type :=
| Success (n : Name)
| Failure (e : TicketError).

Inductive XmlMatchStatus : Type :=
| None_
| ExpectSuccess.

Inductive VerifyError : Type :=
| Hyper (e : HyperError)
| Xml (e : XmlError)
| Url_ (e : ParseError)
| UnsupportedUriType
| NoTicketFound.

(** What a call does: return a value, or panic. *)
Inductive outcome (T : Type) : Type :=
| Returned (r : T)
| Panicked (msg : string).
Arguments Returned {T} r.
Arguments Panicked {T} msg.

(** Rust's [Vec] indexing [v[i]]: panics out of range. *)
Definition vec_index {A} (v : list A) (i : nat) : outcome A :=
  match nth_error v i with
  | Some x => Returned x
  | None => Panicked "index out of bounds"
  end.

(** ** The response interpreter: the [for e in parser] loop of
    [verify_ticket] *)

Definition sentinel : string :=
  "did not detect authentication reply from CAS server".

(** The result of one iteration: continue in a state, or leave the loop
    with the function's outcome. *)
Inductive loop_step : Type :=
| Continue (st : XmlMatchStatus)
| Break (o : outcome (result ServiceResponse VerifyError)).

(** One iteration of the loop body on the item [e] of the iterator. *)
Definition step (status : XmlMatchStatus) (e : result XmlEvent XmlError)
  : loop_step :=
  match e with
  | Err err => Break (Returned (Err (Xml err)))
  | Ok (StartElement name attributes _) =>
      if String.eqb (local_name name) "authenticationSuccess" then
        Continue ExpectSuccess
      else if String.eqb (local_name name) "authenticationFailure" then
        match vec_index attributes 0 with
        | Returned a => Break (Returned (Ok (Failure (value a))))
        | Panicked m => Break (Panicked m)
        end
      else Continue status
  | Ok (Characters s) =>
      match status with
      | None_ => Continue status
      | ExpectSuccess => Break (Returned (Ok (Success s)))
      end
  | Ok _ => Continue status
  end.

(** The loop over the event iterator, and the fall-through after it. *)
Fixpoint interpret (status : XmlMatchStatus)
    (events : list (result XmlEvent XmlError))
  : outcome (result ServiceResponse VerifyError) :=
  match events with
  | [] => Returned (Ok (Failure sentinel))
  | e :: rest =>
      match step status e with
      | Continue st => interpret st rest
      | Break o => o
      end
  end.

(** ** [application/x-www-form-urlencoded] (rust-url's [form_urlencoded]) *)

(** An upper-case hexadecimal digit. *)
Definition hex_digit (n : nat) : ascii :=
  if Nat.ltb n 10 then ascii_of_nat (48 + n) else ascii_of_nat (55 + n).

(** The value of a hexadecimal digit of either case. *)
Definition from_hex (c : ascii) : option nat :=
  let n := nat_of_ascii c in
  if (Nat.leb 48 n && Nat.leb n 57) then Some (n - 48)
  else if (Nat.leb 65 n && Nat.leb n 70) then Some (n - 55)
  else if (Nat.leb 97 n && Nat.leb n 102) then Some (n - 87)
  else None.

(** The bytes left unencoded: ASCII alphanumerics and [*-._]. *)
Definition form_unreserved (c : ascii) : bool :=
  let n := nat_of_ascii c in
  ((Nat.leb 48 n && Nat.leb n 57)) || ((Nat.leb 65 n && Nat.leb n 90))
  || ((Nat.leb 97 n && Nat.leb n 122))
  || Nat.eqb n 42 || Nat.eqb n 45 || Nat.eqb n 46 || Nat.eqb n 95.

(** [byte_serialize] on one byte. *)
Definition form_byte (c : ascii) : string :=
  if Ascii.eqb c " " then "+"
  else if form_unreserved c then String c EmptyString
  else String "%" (String (hex_digit (nat_of_ascii c / 16))
                     (String (hex_digit (nat_of_ascii c mod 16)) EmptyString)).

Fixpoint byte_serialize (s : string) : string :=
  match s with
  | EmptyString => EmptyString
  | String c rest => form_byte c ++ byte_serialize rest
  end.

(** [form_urlencoded::serialize]: [n1=v1&n2=v2...]. *)
Fixpoint form_serialize (pairs : list (string * string)) : string :=
  match pairs with
  | [] => ""
  | [(n, v)] => byte_serialize n ++ "=" ++ byte_serialize v
  | (n, v) :: rest =>
      byte_serialize n ++ "=" ++ byte_serialize v ++ "&" ++ form_serialize rest
  end.

(** [input.split(|&b| b == sep)]. *)
Fixpoint split_on (sep : ascii) (s : string) : list string :=
  match s with
  | EmptyString => [EmptyString]
  | String c rest =>
      if Ascii.eqb c sep then EmptyString :: split_on sep rest
      else match split_on sep rest with
           | p :: ps => String c p :: ps
           | [] => [String c EmptyString]
           end
  end.

(** Splitting a piece at its first [=]; without one the value is empty. *)
Fixpoint split_first_eq (s : string) : string * string :=
  match s with
  | EmptyString => (EmptyString, EmptyString)
  | String c rest =>
      if Ascii.eqb c "=" then (EmptyString, rest)
      else let (n, v) := split_first_eq rest in (String c n, v)
  end.

(** [replace_plus]: [+] becomes a space. *)
Fixpoint replace_plus (s : string) : string :=
  match s with
  | EmptyString => EmptyString
  | String c rest =>
      String (if Ascii.eqb c "+" then " " else c) (replace_plus rest)
  end.

(** [percent_decode]: [%HH] becomes the byte [0xHH]; any other byte, a
    lone [%] included, is kept. *)
Fixpoint percent_decode (s : string) : string :=
  match s with
  | EmptyString => EmptyString
  | String c rest =>
      if Ascii.eqb c "%" then
        match rest with
        | String h (String l rest') =>
            match from_hex h, from_hex l with
            | Some hv, Some lv =>
                String (ascii_of_nat (hv * 16 + lv)) (percent_decode rest')
            | _, _ => String c (percent_decode rest)
            end
        | _ => String c (percent_decode rest)
        end
      else String c (percent_decode rest)
  end.

Definition form_decode (s : string) : string := percent_decode (replace_plus s).

(** One piece of [form_urlencoded::parse]: skipped when empty, else split
    at its first [=] and both halves decoded. *)
Definition parse_piece (piece : string) : list (string * string) :=
  if String.eqb piece "" then []
  else let (n, v) := split_first_eq piece in [(form_decode n, form_decode v)].

(** [form_urlencoded::parse]: split on [&], parse every piece. *)
Definition form_parse (input : string) : list (string * string) :=
  flat_map parse_piece (split_on "&" input).

(** [Url::set_query_from_pairs]: the query is replaced by the serialized
    pairs. *)
Definition set_query_from_pairs (u : Url) (pairs : list (string * string)) : Url :=
  mkUrl (scheme u) (scheme_data u) (Some (form_serialize pairs)) (fragment u).

(** [Url::query_pairs]: [None] without a query. *)
Definition query_pairs (u : Url) : option (list (string * string)) :=
  match query u with
  | Some q => Some (form_parse q)
  | None => None
  end.

(** [true] when the byte [ch] does not occur in [s]. *)
Fixpoint no_char (ch : ascii) (s : string) : bool :=
  match s with
  | EmptyString => true
  | String c rest => negb (Ascii.eqb c ch) && no_char ch rest
  end.

(** ** hyper's request target *)

Inductive RequestUri : Type :=
| AbsolutePath (s : string)
| AbsoluteUri (u : Url)
| Authority (s : string)
| Star.

Record Request := mkRequest { uri : RequestUri }.

(** ** The client *)

Section Client.

(** [Url::parse]: external, any parser of absolute URLs. *)
Variable url_parse : string -> result Url ParseError.

(** [Client::new().get(url).send()] followed by [EventReader::new(res)]:
    the events the tokenizer yields on the body, or the transport error. *)
Variable http_get : string -> result (list (result XmlEvent XmlError)) HyperError.

(** [CasClient::new]: the four [try!]s, in order. *)
Definition CasClient_new (base_url login_path logout_path verify_path service_url_s : string)
  : result CasClient ParseError :=
  match url_parse (base_url ++ login_path) with
  | Err e => Err e
  | Ok lu =>
    match url_parse (base_url ++ logout_path) with
    | Err e => Err e
    | Ok ou =>
      match url_parse (base_url ++ verify_path) with
      | Err e => Err e
      | Ok vu =>
        match url_parse service_url_s with
        | Err e => Err e
        | Ok su => Ok (mkCasClient lu ou vu su)
        end
      end
    end
  end.

Definition get_login_url (self : CasClient) : string :=
  let url := set_query_from_pairs (login_url self)
               [("service", url_serialize (service_url self))] in
  url_serialize url.

Definition get_logout_url (self : CasClient) : string :=
  url_serialize (logout_url self).

(** The URL [verify_ticket] hands to the transport. *)
Definition verify_request_url (self : CasClient) (ticket : string) : Url :=
  set_query_from_pairs (verify_url self)
    [("service", url_serialize (service_url self)); ("ticket", ticket)].

(** [verify_ticket]: the URLs requested, and the outcome. *)
Definition verify_ticket (self : CasClient) (ticket : string)
  : list string * outcome (result ServiceResponse VerifyError) :=
  let u := url_serialize (verify_request_url self ticket) in
  ([u],
   match http_get u with
   | Err e => Returned (Err (Hyper e))
   | Ok events => interpret None_ events
   end).

(** The [for i in queries] loop: the last [ticket] value, [""] if none. *)
Definition last_ticket (queries : list (string * string)) : string :=
  fold_left (fun ticket '(v, t) => if String.eqb v "ticket" then t else ticket)
            queries "".

Definition verify_from_request (self : CasClient) (request : Request)
  : list string * outcome (result ServiceResponse VerifyError) :=
  let from_url (url : Url) :=
    match query_pairs url with
    | None => ([], Returned (Err NoTicketFound))
    | Some queries =>
        let ticket := last_ticket queries in
        if String.eqb ticket "" then ([], Returned (Err NoTicketFound))
        else verify_ticket self ticket
    end in
  match uri request with
  | AbsolutePath s =>
      match url_parse ("http://none" ++ s) with
      | Err e => ([], Returned (Err (Url_ e)))
      | Ok url => from_url url
      end
  | AbsoluteUri u => from_url u
  | _ => ([], Returned (Err UnsupportedUriType))
  end.

End Client.

(** ** The redirects: hyper's server [Response] *)

(** [hyper::status::StatusCode::Found]. *)
Definition Found : nat := 302.

(** An I/O error of the connection the response is written to. *)
Record IoError := mkIoError { io_msg : string }.

(** The head of a [hyper::server::response::Response]: status code and
    headers (hyper's [Headers] is a vector map keyed by the header name,
    compared case-insensitively). *)
Record Response := mkResponse {
  status : nat;
  headers : list (string * string)
}.

Definition ascii_lower (c : ascii) : ascii :=
  let n := nat_of_ascii c in
  if Nat.leb 65 n && Nat.leb n 90 then ascii_of_nat (n + 32) else c.

Fixpoint string_lower (s : string) : string :=
  match s with
  | EmptyString => EmptyString
  | String c rest => String (ascii_lower c) (string_lower rest)
  end.

(** [UniCase] equality of header names. *)
Definition header_name_eqb (a b : string) : bool :=
  String.eqb (string_lower a) (string_lower b).

(** [VecMap::insert]: the value of the first entry with that name is
    replaced, or a new entry is pushed at the end. *)
Fixpoint headers_set (name v : string) (hs : list (string * string))
  : list (string * string) :=
  match hs with
  | [] => [(name, v)]
  | (n, w) :: rest =>
      if header_name_eqb n name then (n, v) :: rest
      else (n, w) :: headers_set name v rest
  end.

(** [Headers::get_raw]: the value of the first entry with that name. *)
Fixpoint headers_get (name : string) (hs : list (string * string)) : option string :=
  match hs with
  | [] => None
  | (n, w) :: rest => if header_name_eqb n name then Some w else headers_get name rest
  end.

Definition unwrap_failed : string :=
  "called `Result::unwrap()` on an `Err` value".

Section Redirect.

(** [Response::send]: writes the head and the body, or fails with an I/O
    error. *)
Variable send : Response -> string -> result unit IoError.

(** The body of [login_redirect] and [logout_redirect]: status [Found],
    the [Location] header, an empty body, and [unwrap] of the send.  The
    outcome records the response written. *)
Definition redirect_to (target : string) (res : Response) : outcome (Response * string) :=
  let res := mkResponse Found (headers res) in
  let res := mkResponse (status res) (headers_set "Location" target (headers res)) in
  match send res "" with
  | Ok _ => Returned (res, "")
  | Err _ => Panicked unwrap_failed
  end.

Definition login_redirect (self : CasClient) (res : Response) : outcome (Response * string) :=
  redirect_to (get_login_url self) res.

Definition logout_redirect (self : CasClient) (res : Response) : outcome (Response * string) :=
  redirect_to (get_logout_url self) res.

End Redirect.

(** ** Running the loop without leaving it *)

(** [scan st evs] is [Some st'] when the loop consumes all of [evs] from
    state [st] without returning, ending in [st']. *)
Fixpoint scan (status : XmlMatchStatus) (events : list (result XmlEvent XmlError))
  : option XmlMatchStatus :=
  match events with
  | [] => Some status
  | e :: rest =>
      match step status e with
      | Continue st => scan st rest
      | Break _ => None
      end
  end.

(** ** Event classes used in the statements *)

Definition is_text (e : result XmlEvent XmlError) : bool :=
  match e with Ok (Characters _) => true | _ => false end.

Definition is_start_named (l : string) (e : result XmlEvent XmlError) : bool :=
  match e with
  | Ok (StartElement n _ _) => String.eqb (local_name n) l
  | _ => false
  end.

Definition is_error (e : result XmlEvent XmlError) : bool :=
  match e with Err _ => true | Ok _ => false end.

(** Events the loop body never looks at: everything but errors, start
    elements and text ([EndElement], [Whitespace], [CData], [Comment],
    processing instructions, document start and end). *)
Definition is_inert (e : result XmlEvent XmlError) : bool :=
  match e with
  | Ok (StartElement _ _ _) | Ok (Characters _) | Err _ => false
  | Ok _ => true
  end.

(** ** Sample inputs *)

Definition cas_ns : string := "http://www.yale.edu/tp/cas".
Definition cas_name (l : string) : OwnedName := mkName l (Some cas_ns) (Some "cas").
Definition cas_bindings : Namespace := [("cas", cas_ns)].

(** The events of
    [<cas:serviceResponse><cas:authenticationSuccess><cas:user>alice</cas:user></cas:authenticationSuccess></cas:serviceResponse>]. *)
Definition alice_events : list (result XmlEvent XmlError) :=
  [Ok (StartDocument "1.0" "UTF-8" None);
   Ok (StartElement (cas_name "serviceResponse") [] cas_bindings);
   Ok (StartElement (cas_name "authenticationSuccess") [] cas_bindings);
   Ok (StartElement (cas_name "user") [] cas_bindings);
   Ok (Characters "alice");
   Ok (EndElement (cas_name "user"));
   Ok (EndElement (cas_name "authenticationSuccess"));
   Ok (EndElement (cas_name "serviceResponse"));
   Ok EndDocument].

(** The events of
    [<cas:serviceResponse><cas:authenticationFailure code="INVALID_TICKET">Ticket not recognized</cas:authenticationFailure></cas:serviceResponse>]. *)
Definition invalid_ticket_events : list (result XmlEvent XmlError) :=
  [Ok (StartDocument "1.0" "UTF-8" None);
   Ok (StartElement (cas_name "serviceResponse") [] cas_bindings);
   Ok (StartElement (cas_name "authenticationFailure")
         [mkAttr (mkName "code" None None) "INVALID_TICKET"] cas_bindings);
   Ok (Characters "Ticket not recognized");
   Ok (EndElement (cas_name "authenticationFailure"));
   Ok (EndElement (cas_name "serviceResponse"));
   Ok EndDocument].

(** The events of
    [<cas:serviceResponse><cas:authenticationFailure>no code</cas:authenticationFailure></cas:serviceResponse>]. *)
Definition no_attribute_failure_events : list (result XmlEvent XmlError) :=
  [Ok (StartDocument "1.0" "UTF-8" None);
   Ok (StartElement (cas_name "serviceResponse") [] cas_bindings);
   Ok (StartElement (cas_name "authenticationFailure") [] cas_bindings);
   Ok (Characters "no code");
   Ok (EndElement (cas_name "authenticationFailure"));
   Ok (EndElement (cas_name "serviceResponse"));
   Ok EndDocument].

(** The events of
    [<cas:serviceResponse><cas:maintenance>down</cas:maintenance></cas:serviceResponse>]:
    neither reply element. *)
Definition no_reply_events : list (result XmlEvent XmlError) :=
  [Ok (StartDocument "1.0" "UTF-8" None);
   Ok (StartElement (cas_name "serviceResponse") [] cas_bindings);
   Ok (StartElement (cas_name "maintenance") [] cas_bindings);
   Ok (Characters "down");
   Ok (EndElement (cas_name "maintenance"));
   Ok (EndElement (cas_name "serviceResponse"));
   Ok EndDocument].

(** A sample parser for [http] URLs ([http:] followed by the scheme data,
    an optional query and an optional fragment), enough to parse the
    [http://none/...] URLs [verify_from_request] builds. *)
Fixpoint split_at_char (sep : ascii) (s : string) : string * option string :=
  match s with
  | EmptyString => (EmptyString, None)
  | String c rest =>
      if Ascii.eqb c sep then (EmptyString, Some rest)
      else let (a, b) := split_at_char sep rest in (String c a, b)
  end.

Definition sample_url_parse (s : string) : result Url ParseError :=
  if String.prefix "http://" s then
    let rest := substring 5 (String.length s - 5) s in
    let (before_frag, frag) := split_at_char "#" rest in
    let (sd, q) := split_at_char "?" before_frag in
    Ok (mkUrl "http" sd q frag)
  else Err RelativeUrlWithoutBase.

Definition sample_client : CasClient :=
  mkCasClient
    (mkUrl "https" "//login.case.edu/cas/login" None None)
    (mkUrl "https" "//login.case.edu/cas/logout" None None)
    (mkUrl "https" "//login.case.edu/cas/serviceValidate" None None)
    (mkUrl "http" "//localhost:8080/callback" None None).

(** A transport that cannot reach the server. *)
Definition unreachable : string -> result (list (result XmlEvent XmlError)) HyperError :=
  fun _ => Err (mkHyperError "connection refused").

(** Response sinks that accept, or refuse, every write. *)
Definition accept_all : Response -> string -> result unit IoError := fun _ _ => Ok tt.
Definition refuse_all : Response -> string -> result unit IoError :=
  fun _ _ => Err (mkIoError "broken pipe").

Definition sample_response : Response :=
  mkResponse 200 [("Server", "hyper"); ("location", "/old")].

(** A transport answering every request with the same events. *)
Definition answer (events : list (result XmlEvent XmlError))
  : string -> result (list (result XmlEvent XmlError)) HyperError :=
  fun _ => Ok events.

(** * Properties *)

(** ** The response interpreter *)

Lemma interpret_app (pre rest : list (result XmlEvent XmlError)) :
  forall st st', scan st pre = Some st' -> interpret st (pre ++ rest) = interpret st' rest.
Proof.
  induction pre as [|e pre IH]; intros st st' H; simpl in *.
  - now inversion H.
  - destruct (step st e); [now apply IH | discriminate].
Qed.

(** In [ExpectSuccess], every event that is neither an error, nor text,
    nor an [authenticationFailure] start keeps the loop in [ExpectSuccess]. *)
Lemma step_expect_quiet (e : result XmlEvent XmlError) :
  is_error e = false -> is_text e = false ->
  is_start_named "authenticationFailure" e = false ->
  step ExpectSuccess e = Continue ExpectSuccess.
Proof.
  destruct e as [ev|err]; simpl; [|discriminate].
  intros _ Ht Hf.
  destruct ev; simpl in *; try reflexivity; try discriminate.
  destruct (String.eqb (local_name name) "authenticationSuccess"); [reflexivity|].
  now rewrite Hf.
Qed.

Lemma scan_expect_quiet (mid : list (result XmlEvent XmlError)) :
  Forall (fun e => is_error e = false /\ is_text e = false
                   /\ is_start_named "authenticationFailure" e = false) mid ->
  scan ExpectSuccess mid = Some ExpectSuccess.
Proof.
  induction 1 as [|e mid [He [Ht Hf]] _ IH]; simpl; [reflexivity|].
  now rewrite step_expect_quiet.
Qed.

Lemma step_success_start (st : XmlMatchStatus) nm attrs ns :
  local_name nm = "authenticationSuccess" ->
  step st (Ok (StartElement nm attrs ns)) = Continue ExpectSuccess.
Proof. intros H; simpl; now rewrite H. Qed.

Lemma step_failure_start (st : XmlMatchStatus) nm attrs ns :
  local_name nm = "authenticationFailure" ->
  step st (Ok (StartElement nm attrs ns))
  = match vec_index attrs 0 with
    | Returned a => Break (Returned (Ok (Failure (value a))))
    | Panicked m => Break (Panicked m)
    end.
Proof. intros H; simpl; now rewrite H. Qed.

(** C1: once an [authenticationSuccess] start has been seen, the first
    text event that follows makes [verify_ticket] return [Success] with
    exactly that text, whatever comes after it (the closing tag is not
    awaited); on the [alice] response it returns [Success "alice"]. *)
Theorem verify_ticket_success_first_text :
  (forall http_get c ticket pre nm attrs ns mid s post,
     http_get (url_serialize (verify_request_url c ticket))
       = Ok (pre ++ Ok (StartElement nm attrs ns) :: mid ++ Ok (Characters s) :: post) ->
     local_name nm = "authenticationSuccess" ->
     scan None_ pre <> None ->
     Forall (fun e => is_error e = false /\ is_text e = false
                      /\ is_start_named "authenticationFailure" e = false) mid ->
     snd (verify_ticket http_get c ticket) = Returned (Ok (Success s)))
  /\ (forall c ticket,
        snd (verify_ticket (answer alice_events) c ticket) = Returned (Ok (Success "alice"))).
Proof.
  split; [|reflexivity].
  intros http_get c ticket pre nm attrs ns mid s post Hget Hname Hpre Hmid.
  unfold verify_ticket; simpl; rewrite Hget.
  destruct (scan None_ pre) as [st|] eqn:Hscan; [|congruence].
  rewrite (interpret_app _ _ _ _ Hscan); simpl; rewrite Hname; simpl.
  rewrite (interpret_app _ _ _ _ (scan_expect_quiet mid Hmid)).
  reflexivity.
Qed.

(** C2: an [authenticationFailure] start element, in either state of the
    loop, makes [verify_ticket] return at once [Failure] with the value of
    the element's first attribute; whatever follows (its text included) is
    not read.  On the [INVALID_TICKET] response it returns
    [Failure "INVALID_TICKET"], not the element's text. *)
Theorem verify_ticket_failure_first_attribute :
  (forall st nm a attrs ns,
     local_name nm = "authenticationFailure" ->
     step st (Ok (StartElement nm (a :: attrs) ns))
     = Break (Returned (Ok (Failure (value a)))))
  /\ (forall http_get c ticket pre nm a attrs ns rest,
     http_get (url_serialize (verify_request_url c ticket))
       = Ok (pre ++ Ok (StartElement nm (a :: attrs) ns) :: rest) ->
     local_name nm = "authenticationFailure" ->
     scan None_ pre <> None ->
     snd (verify_ticket http_get c ticket) = Returned (Ok (Failure (value a))))
  /\ (forall c ticket,
        snd (verify_ticket (answer invalid_ticket_events) c ticket)
        = Returned (Ok (Failure "INVALID_TICKET"))).
Proof.
  split; [|split; [|reflexivity]].
  - intros st nm a attrs ns H; now rewrite step_failure_start.
  - intros http_get c ticket pre nm a attrs ns rest Hget Hname Hpre.
    unfold verify_ticket; simpl; rewrite Hget.
    destruct (scan None_ pre) as [st|] eqn:Hscan; [|congruence].
    rewrite (interpret_app _ _ _ _ Hscan); simpl; rewrite Hname; reflexivity.
Qed.

(** C3 (the code panics): an [authenticationFailure] start element without
    attributes makes [attributes[0]] index out of bounds, so
    [verify_ticket] panics instead of returning an error or a [Failure]. *)
Theorem verify_ticket_failure_without_attribute_panics :
  (forall c ticket,
     snd (verify_ticket (answer no_attribute_failure_events) c ticket)
     = Panicked "index out of bounds")
  /\ (forall st ns rest,
        interpret st (Ok (StartElement (cas_name "authenticationFailure") [] ns) :: rest)
        = Panicked "index out of bounds").
Proof. split; reflexivity. Qed.

(** The loop over events with no error, no [authenticationFailure] start,
    and no text after an [authenticationSuccess] start falls through. *)
Lemma interpret_falls_through (events : list (result XmlEvent XmlError)) :
  forall st,
  Forall (fun e => is_error e = false
                   /\ is_start_named "authenticationFailure" e = false) events ->
  (st = ExpectSuccess -> Forall (fun x => is_text x = false) events) ->
  (forall a e b, events = a ++ e :: b ->
     is_start_named "authenticationSuccess" e = true ->
     Forall (fun x => is_text x = false) b) ->
  interpret st events = Returned (Ok (Failure sentinel)).
Proof.
  induction events as [|e rest IH]; intros st Hall Hexp Hsplit; [reflexivity|].
  inversion Hall as [|? ? [Herr Hfail] Hall']; subst.
  assert (Hsplit' : forall a e' b, rest = a ++ e' :: b ->
            is_start_named "authenticationSuccess" e' = true ->
            Forall (fun x => is_text x = false) b).
  { intros a e' b Heq Hs; apply (Hsplit (e :: a) e' b); [now rewrite Heq|exact Hs]. }
  destruct e as [ev|err]; [|discriminate].
  destruct ev; simpl; try (apply IH; auto; intros Hst; specialize (Hexp Hst);
                           now inversion Hexp).
  - (* StartElement *)
    simpl in Hfail.
    destruct (String.eqb (local_name name) "authenticationSuccess") eqn:Hs.
    + apply IH; auto; intros _.
      apply (Hsplit [] (Ok (StartElement name attributes ns)) rest);
        [reflexivity|simpl; exact Hs].
    + rewrite Hfail. apply IH; auto; intros Hst; specialize (Hexp Hst);
        now inversion Hexp.
  - (* Characters *)
    destruct st.
    + apply IH; auto; discriminate.
    + specialize (Hexp eq_refl); inversion Hexp; discriminate.
Qed.

(** C4: when the events run out with no error, no [authenticationFailure]
    start element and no text event after an [authenticationSuccess]
    start element, [verify_ticket] returns [Ok (Failure sentinel)]: a
    soft failure with a fixed reason, not a [VerifyError]. *)
Theorem verify_ticket_exhausted_sentinel :
  forall http_get c ticket events,
  http_get (url_serialize (verify_request_url c ticket)) = Ok events ->
  Forall (fun e => is_error e = false
                   /\ is_start_named "authenticationFailure" e = false) events ->
  (forall a e b, events = a ++ e :: b ->
     is_start_named "authenticationSuccess" e = true ->
     Forall (fun x => is_text x = false) b) ->
  snd (verify_ticket http_get c ticket) = Returned (Ok (Failure sentinel)).
Proof.
  intros http_get c ticket events Hget Hall Hsplit.
  unfold verify_ticket; simpl; rewrite Hget.
  apply interpret_falls_through; auto; discriminate.
Qed.

(** C10: element names are matched on their local name alone: the prefix,
    the namespace and the namespace bindings of a start element never
    change what the loop does with it. *)
Theorem interpret_local_name_only :
  forall st l n1 p1 n2 p2 attrs ns1 ns2 rest,
  interpret st (Ok (StartElement (mkName l n1 p1) attrs ns1) :: rest)
  = interpret st (Ok (StartElement (mkName l n2 p2) attrs ns2) :: rest).
Proof. reflexivity. Qed.

(** ** The form-urlencoded codec *)

Lemma string_app_assoc (a b c : string) : (a ++ (b ++ c))%string = ((a ++ b) ++ c)%string.
Proof. induction a as [|x a IH]; simpl; [reflexivity|now rewrite IH]. Qed.

Lemma replace_plus_app (a b : string) :
  (replace_plus (a ++ b) = replace_plus a ++ replace_plus b)%string.
Proof. induction a as [|c a IH]; simpl; [reflexivity|now rewrite IH]. Qed.

Lemma no_char_app (ch : ascii) (a b : string) :
  no_char ch (a ++ b)%string = no_char ch a && no_char ch b.
Proof.
  induction a as [|c a IH]; simpl; [reflexivity|].
  now rewrite IH, andb_assoc.
Qed.

(** Every byte, decoded after being encoded, comes back. *)
Lemma decode_form_byte (c : ascii) (r : string) :
  percent_decode (replace_plus (form_byte c) ++ r)%string = String c (percent_decode r).
Proof.
  destruct c as [[] [] [] [] [] [] [] []]; reflexivity.
Qed.

Lemma form_byte_no_char (c : ascii) :
  no_char "&" (form_byte c) = true /\ no_char "=" (form_byte c) = true.
Proof.
  destruct c as [[] [] [] [] [] [] [] []]; split; reflexivity.
Qed.

Lemma form_decode_byte_serialize (x : string) :
  form_decode (byte_serialize x) = x.
Proof.
  unfold form_decode.
  induction x as [|c x IH]; simpl; [reflexivity|].
  now rewrite replace_plus_app, decode_form_byte, IH.
Qed.

Lemma byte_serialize_no_char (x : string) :
  no_char "&" (byte_serialize x) = true /\ no_char "=" (byte_serialize x) = true.
Proof.
  induction x as [|c x [IH1 IH2]]; simpl; [split; reflexivity|].
  destruct (form_byte_no_char c) as [H1 H2].
  now rewrite !no_char_app, H1, H2, IH1, IH2.
Qed.

Lemma split_on_app_sep (sep : ascii) (a r : string) :
  no_char sep a = true -> split_on sep (a ++ String sep r)%string = a :: split_on sep r.
Proof.
  induction a as [|c a IH]; simpl; intros H.
  - now rewrite Ascii.eqb_refl.
  - apply andb_prop in H as [Hc Ha].
    apply negb_true_iff in Hc; rewrite Hc, IH by exact Ha; reflexivity.
Qed.

Lemma split_on_no_sep (sep : ascii) (a : string) :
  no_char sep a = true -> split_on sep a = [a].
Proof.
  induction a as [|c a IH]; simpl; intros H; [reflexivity|].
  apply andb_prop in H as [Hc Ha].
  apply negb_true_iff in Hc; rewrite Hc, IH by exact Ha; reflexivity.
Qed.

Lemma split_first_eq_app (a b : string) :
  no_char "=" a = true -> split_first_eq (a ++ String "=" b)%string = (a, b).
Proof.
  induction a as [|c a IH]; simpl; intros H; [reflexivity|].
  apply andb_prop in H as [Hc Ha].
  apply negb_true_iff in Hc; rewrite Hc, IH by exact Ha; reflexivity.
Qed.

Lemma byte_serialize_service : byte_serialize "service" = "service".
Proof. reflexivity. Qed.

Lemma byte_serialize_ticket : byte_serialize "ticket" = "ticket".
Proof. reflexivity. Qed.

(** One encoded [name=value] piece parses back to the pair. *)
Lemma parse_piece_encoded (n v : string) :
  form_decode n = n -> no_char "=" n = true -> n <> "" ->
  parse_piece (n ++ "=" ++ byte_serialize v)%string = [(n, v)].
Proof.
  intros Hd Hn Hne; unfold parse_piece.
  destruct n as [|c n]; [congruence|]; simpl String.eqb; cbv iota.
  change (String c n ++ "=" ++ byte_serialize v)%string
    with (String c n ++ String "=" (byte_serialize v))%string.
  rewrite split_first_eq_app by exact Hn.
  now rewrite Hd, form_decode_byte_serialize.
Qed.

Lemma form_parse_app_sep (a r : string) :
  no_char "&" a = true ->
  form_parse (a ++ String "&" r)%string = parse_piece a ++ form_parse r.
Proof.
  intros H; unfold form_parse; now rewrite split_on_app_sep.
Qed.

Lemma form_parse_no_sep (a : string) :
  no_char "&" a = true -> form_parse a = parse_piece a.
Proof.
  intros H; unfold form_parse; rewrite split_on_no_sep by exact H.
  simpl; apply app_nil_r.
Qed.

Lemma encoded_pair_no_amp (n v : string) :
  no_char "&" n = true ->
  no_char "&" (n ++ "=" ++ byte_serialize v)%string = true.
Proof.
  intros H; rewrite !no_char_app, H; simpl.
  now destruct (byte_serialize_no_char v) as [-> _].
Qed.

Lemma form_parse_service_ticket (sv t : string) :
  form_parse (form_serialize [("service", sv); ("ticket", t)])
  = [("service", sv); ("ticket", t)].
Proof.
  unfold form_serialize.
  rewrite byte_serialize_service, byte_serialize_ticket.
  rewrite (string_app_assoc "service"), (string_app_assoc ("service" ++ "=")%string).
  change ("&" ++ ("ticket" ++ "=" ++ byte_serialize t))%string
    with (String "&" ("ticket" ++ "=" ++ byte_serialize t)%string).
  rewrite form_parse_app_sep
    by (rewrite <- string_app_assoc; apply encoded_pair_no_amp; reflexivity).
  rewrite form_parse_no_sep by (apply encoded_pair_no_amp; reflexivity).
  rewrite <- string_app_assoc.
  rewrite !parse_piece_encoded by (reflexivity || discriminate).
  reflexivity.
Qed.

Lemma form_parse_service (sv : string) :
  form_parse (form_serialize [("service", sv)]) = [("service", sv)].
Proof.
  unfold form_serialize; rewrite byte_serialize_service.
  rewrite form_parse_no_sep by (apply encoded_pair_no_amp; reflexivity).
  apply parse_piece_encoded; (reflexivity || discriminate).
Qed.

(** ** The URL builder *)

(** C8: [verify_ticket] hands the transport one URL: the configured verify
    URL (scheme, scheme data and fragment kept) whose query is replaced by
    [service=<encoded service URL>&ticket=<encoded ticket>], which parses
    back to exactly the two pairs [service] and [ticket], in that order. *)
Theorem verify_ticket_validation_url :
  forall http_get c ticket,
  fst (verify_ticket http_get c ticket) = [url_serialize (verify_request_url c ticket)]
  /\ verify_request_url c ticket
     = mkUrl (scheme (verify_url c)) (scheme_data (verify_url c))
         (Some ("service=" ++ byte_serialize (url_serialize (service_url c))
                ++ "&ticket=" ++ byte_serialize ticket)%string)
         (fragment (verify_url c))
  /\ query_pairs (verify_request_url c ticket)
     = Some [("service", url_serialize (service_url c)); ("ticket", ticket)].
Proof.
  intros http_get c ticket; split; [reflexivity|split].
  - unfold verify_request_url, set_query_from_pairs, form_serialize.
    now rewrite byte_serialize_service, byte_serialize_ticket.
  - unfold query_pairs, verify_request_url, set_query_from_pairs; cbn [query].
    now rewrite form_parse_service_ticket.
Qed.

(** C9: [get_login_url] is the configured login URL whose query is
    replaced by [service=<encoded service URL>], the single pair
    [service]; [get_logout_url] is the configured logout URL, serialized
    unchanged. *)
Theorem login_logout_urls :
  forall c,
  get_login_url c
  = url_serialize
      (mkUrl (scheme (login_url c)) (scheme_data (login_url c))
         (Some ("service=" ++ byte_serialize (url_serialize (service_url c)))%string)
         (fragment (login_url c)))
  /\ query_pairs
       (mkUrl (scheme (login_url c)) (scheme_data (login_url c))
          (Some ("service=" ++ byte_serialize (url_serialize (service_url c)))%string)
          (fragment (login_url c)))
     = Some [("service", url_serialize (service_url c))]
  /\ get_logout_url c = url_serialize (logout_url c).
Proof.
  intros c; split; [|split; [|reflexivity]].
  - unfold get_login_url, set_query_from_pairs, form_serialize.
    now rewrite byte_serialize_service.
  - unfold query_pairs; cbn [query].
    pose proof (form_parse_service (url_serialize (service_url c))) as H.
    unfold form_serialize in H; rewrite byte_serialize_service in H.
    f_equal; exact H.
Qed.

(** ** Construction *)

(** C7: [CasClient::new] succeeds exactly when the four strings
    [base_url+login_path], [base_url+logout_path], [base_url+verify_path]
    and [service_url] all parse, and then holds the four parsed URLs; when
    it fails, its error is the [ParseError] of one of the four parses and
    no client is built. *)
Theorem CasClient_new_all_or_nothing :
  forall url_parse base login logout verify service,
  ((exists c, CasClient_new url_parse base login logout verify service = Ok c)
   <-> (exists lu ou vu su,
          url_parse (base ++ login)%string = Ok lu
          /\ url_parse (base ++ logout)%string = Ok ou
          /\ url_parse (base ++ verify)%string = Ok vu
          /\ url_parse service = Ok su
          /\ CasClient_new url_parse base login logout verify service
             = Ok (mkCasClient lu ou vu su)))
  /\ (forall e, CasClient_new url_parse base login logout verify service = Err e ->
        url_parse (base ++ login)%string = Err e
        \/ url_parse (base ++ logout)%string = Err e
        \/ url_parse (base ++ verify)%string = Err e
        \/ url_parse service = Err e).
Proof.
  intros url_parse base login logout verify service; unfold CasClient_new.
  destruct (url_parse (base ++ login)%string) as [lu|e1];
  [destruct (url_parse (base ++ logout)%string) as [ou|e2];
   [destruct (url_parse (base ++ verify)%string) as [vu|e3];
    [destruct (url_parse service) as [su|e4]|]|]|];
  split;
  try (split; [intros [c Hc]; discriminate Hc
              |intros (lu' & ou' & vu' & su' & H1 & H2 & H3 & H4 & _); discriminate]);
  try (intros e He; injection He as <-; auto; fail).
  - split; [intros _; now exists lu, ou, vu, su|intros _; eexists; reflexivity].
  - intros e He; discriminate He.
Qed.

(** ** The ticket extractor *)

Lemma last_ticket_keep (qs : list (string * string)) :
  Forall (fun p => fst p <> "ticket") qs ->
  forall acc,
  fold_left (fun ticket '(v, t) => if String.eqb v "ticket" then t else ticket) qs acc
  = acc.
Proof.
  induction 1 as [|[n t] qs Hn _ IH]; intros acc; simpl; [reflexivity|].
  simpl in Hn; apply String.eqb_neq in Hn; rewrite Hn; apply IH.
Qed.

Lemma last_ticket_last (pre post : list (string * string)) (v : string) :
  Forall (fun p => fst p <> "ticket") post ->
  last_ticket (pre ++ ("ticket", v) :: post) = v.
Proof.
  intros H; unfold last_ticket; rewrite fold_left_app; simpl.
  now apply last_ticket_keep.
Qed.

Lemma last_ticket_absent (qs : list (string * string)) :
  Forall (fun p => fst p <> "ticket") qs -> last_ticket qs = "".
Proof. intros H; now apply last_ticket_keep. Qed.

(** [verify_from_request] on a request whose URI gives the URL [u]. *)
Lemma verify_from_request_url url_parse http_get c req u :
  (uri req = AbsoluteUri u
   \/ exists s, uri req = AbsolutePath s /\ url_parse ("http://none" ++ s)%string = Ok u) ->
  verify_from_request url_parse http_get c req
  = match query_pairs u with
    | None => ([], Returned (Err NoTicketFound))
    | Some queries =>
        if String.eqb (last_ticket queries) "" then ([], Returned (Err NoTicketFound))
        else verify_ticket http_get c (last_ticket queries)
    end.
Proof.
  intros [H | (s & H & Hp)]; unfold verify_from_request; rewrite H; [reflexivity|].
  now rewrite Hp.
Qed.

(** C5, as stated, fails: in [?ticket=ST-1&ticket=] the only [ticket]
    with a non-empty value is [ST-1], yet the later, empty [ticket]
    overwrites it and [verify_from_request] fails with [NoTicketFound]
    without any request, instead of acting as [verify_ticket "ST-1"]. *)
Lemma verify_from_request_empty_last_ticket_cex :
  verify_from_request sample_url_parse (answer alice_events) sample_client
    (mkRequest (AbsolutePath "/callback?ticket=ST-1&ticket="))
  = ([], Returned (Err NoTicketFound))
  /\ verify_from_request sample_url_parse (answer alice_events) sample_client
       (mkRequest (AbsolutePath "/callback?ticket=ST-1&ticket="))
     <> verify_ticket (answer alice_events) sample_client "ST-1".
Proof. split; [reflexivity|vm_compute; discriminate]. Qed.

(** C5 (amended): when the URI is an absolute URI, or an absolute path
    that parses after the [http://none] prefix, and the last decoded query
    pair named [ticket] has a non-empty value [v], [verify_from_request]
    is exactly [verify_ticket v]: the same request, the same outcome.  On
    [/callback?ticket=ST-123&foo=bar] it is [verify_ticket "ST-123"]. *)
Theorem verify_from_request_last_ticket :
  (forall url_parse http_get c req u pre v post,
     (uri req = AbsoluteUri u
      \/ exists s, uri req = AbsolutePath s
                   /\ url_parse ("http://none" ++ s)%string = Ok u) ->
     query_pairs u = Some (pre ++ ("ticket", v) :: post) ->
     Forall (fun p => fst p <> "ticket") post ->
     v <> "" ->
     verify_from_request url_parse http_get c req = verify_ticket http_get c v)
  /\ (forall url_parse http_get c u,
        url_parse "http://none/callback?ticket=ST-123&foo=bar" = Ok u ->
        query u = Some "ticket=ST-123&foo=bar" ->
        verify_from_request url_parse http_get c
          (mkRequest (AbsolutePath "/callback?ticket=ST-123&foo=bar"))
        = verify_ticket http_get c "ST-123").
Proof.
  split.
  - intros url_parse http_get c req u pre v post Hu Hq Hpost Hv.
    rewrite (verify_from_request_url _ _ _ _ _ Hu), Hq.
    rewrite last_ticket_last by exact Hpost.
    apply String.eqb_neq in Hv; now rewrite Hv.
  - intros url_parse http_get c u Hp Hq.
    rewrite (verify_from_request_url url_parse http_get c _ u)
      by (right; eexists; split; [reflexivity|exact Hp]).
    unfold query_pairs; rewrite Hq; reflexivity.
Qed.

(** C6: for an absolute URI, or an absolute path that parses after the
    [http://none] prefix, [verify_from_request] fails with [NoTicketFound],
    issuing no request, when there is no query, the query is empty, no
    query pair is named [ticket], or the last [ticket] pair has an empty
    value; any other kind of request URI fails with [UnsupportedUriType],
    again with no request issued. *)
Theorem verify_from_request_no_ticket_or_unsupported :
  (forall url_parse http_get c req u,
     (uri req = AbsoluteUri u
      \/ exists s, uri req = AbsolutePath s
                   /\ url_parse ("http://none" ++ s)%string = Ok u) ->
     (query u = None
      \/ query u = Some ""
      \/ (exists qs, query_pairs u = Some qs
                     /\ Forall (fun p => fst p <> "ticket") qs)
      \/ (exists pre post, query_pairs u = Some (pre ++ ("ticket", "") :: post)
                           /\ Forall (fun p => fst p <> "ticket") post)) ->
     verify_from_request url_parse http_get c req = ([], Returned (Err NoTicketFound)))
  /\ (forall url_parse http_get c req,
        (forall s, uri req <> AbsolutePath s) ->
        (forall u, uri req <> AbsoluteUri u) ->
        verify_from_request url_parse http_get c req
        = ([], Returned (Err UnsupportedUriType))).
Proof.
  split.
  - intros url_parse http_get c req u Hu Hq.
    rewrite (verify_from_request_url _ _ _ _ _ Hu).
    destruct Hq as [Hq | [Hq | [(qs & Hq & Hno) | (pre & post & Hq & Hpost)]]].
    + unfold query_pairs; now rewrite Hq.
    + unfold query_pairs; now rewrite Hq.
    + rewrite Hq, last_ticket_absent by exact Hno; reflexivity.
    + rewrite Hq, last_ticket_last by exact Hpost; reflexivity.
  - intros url_parse http_get c req Hp Ha; unfold verify_from_request.
    destruct (uri req) eqn:E; [now destruct (Hp s)|now destruct (Ha u)|reflexivity..].
Qed.

(** * Witnesses: the theorems applied at concrete inputs *)

Lemma verify_ticket_success_first_text_witness :
  snd (verify_ticket (answer alice_events) sample_client "ST-1")
  = Returned (Ok (Success "alice")).
Proof.
  apply (proj1 verify_ticket_success_first_text (answer alice_events) sample_client "ST-1"
           [Ok (StartDocument "1.0" "UTF-8" None);
            Ok (StartElement (cas_name "serviceResponse") [] cas_bindings)]
           (cas_name "authenticationSuccess") [] cas_bindings
           [Ok (StartElement (cas_name "user") [] cas_bindings)] "alice"
           [Ok (EndElement (cas_name "user"));
            Ok (EndElement (cas_name "authenticationSuccess"));
            Ok (EndElement (cas_name "serviceResponse"));
            Ok EndDocument]).
  - reflexivity.
  - reflexivity.
  - simpl; discriminate.
  - repeat constructor.
Defined.

Lemma verify_ticket_failure_first_attribute_witness :
  snd (verify_ticket (answer invalid_ticket_events) sample_client "ST-1")
  = Returned (Ok (Failure "INVALID_TICKET")).
Proof.
  apply (proj1 (proj2 verify_ticket_failure_first_attribute)
           (answer invalid_ticket_events) sample_client "ST-1"
           [Ok (StartDocument "1.0" "UTF-8" None);
            Ok (StartElement (cas_name "serviceResponse") [] cas_bindings)]
           (cas_name "authenticationFailure")
           (mkAttr (mkName "code" None None) "INVALID_TICKET") [] cas_bindings
           [Ok (Characters "Ticket not recognized");
            Ok (EndElement (cas_name "authenticationFailure"));
            Ok (EndElement (cas_name "serviceResponse"));
            Ok EndDocument]).
  - reflexivity.
  - reflexivity.
  - simpl; discriminate.
Defined.

Lemma verify_ticket_exhausted_sentinel_witness :
  snd (verify_ticket (answer no_reply_events) sample_client "ST-1")
  = Returned (Ok (Failure sentinel)).
Proof.
  apply (verify_ticket_exhausted_sentinel (answer no_reply_events) sample_client "ST-1"
           no_reply_events).
  - reflexivity.
  - repeat constructor.
  - intros a e b H Hs.
    assert (Hin : In e no_reply_events)
      by (rewrite H; apply in_or_app; right; left; reflexivity).
    simpl in Hin.
    repeat (destruct Hin as [<- | Hin]; [discriminate Hs|]).
    destruct Hin.
Defined.

Lemma verify_from_request_last_ticket_witness :
  verify_from_request sample_url_parse (answer alice_events) sample_client
    (mkRequest (AbsolutePath "/callback?ticket=ST-123&foo=bar"))
  = verify_ticket (answer alice_events) sample_client "ST-123"
  /\ verify_from_request sample_url_parse (answer alice_events) sample_client
       (mkRequest (AbsolutePath "/cb?ticket=ST-1&x=y&ticket=ST-2"))
     = verify_ticket (answer alice_events) sample_client "ST-2".
Proof.
  split.
  - apply (proj2 verify_from_request_last_ticket sample_url_parse (answer alice_events)
             sample_client (mkUrl "http" "//none/callback" (Some "ticket=ST-123&foo=bar") None));
      reflexivity.
  - apply (proj1 verify_from_request_last_ticket sample_url_parse (answer alice_events)
             sample_client (mkRequest (AbsolutePath "/cb?ticket=ST-1&x=y&ticket=ST-2"))
             (mkUrl "http" "//none/cb" (Some "ticket=ST-1&x=y&ticket=ST-2") None)
             [("ticket", "ST-1"); ("x", "y")] "ST-2" []).
    + right; eexists; split; reflexivity.
    + reflexivity.
    + constructor.
    + discriminate.
Defined.

Lemma verify_from_request_no_ticket_or_unsupported_witness :
  verify_from_request sample_url_parse (answer alice_events) sample_client
    (mkRequest (AbsolutePath "/callback"))
  = ([], Returned (Err NoTicketFound))
  /\ verify_from_request sample_url_parse (answer alice_events) sample_client
       (mkRequest Star)
     = ([], Returned (Err UnsupportedUriType)).
Proof.
  split.
  - apply (proj1 verify_from_request_no_ticket_or_unsupported sample_url_parse
             (answer alice_events) sample_client (mkRequest (AbsolutePath "/callback"))
             (mkUrl "http" "//none/callback" None None)).
    + right; eexists; split; reflexivity.
    + left; reflexivity.
  - apply (proj2 verify_from_request_no_ticket_or_unsupported); discriminate.
Defined.

Lemma CasClient_new_all_or_nothing_witness :
  sample_url_parse "http://login.case.edu/cas/login" = Err RelativeUrlWithoutBase
  \/ sample_url_parse "http://login.case.edu/cas/logout" = Err RelativeUrlWithoutBase
  \/ sample_url_parse "http://login.case.edu/cas/serviceValidate" = Err RelativeUrlWithoutBase
  \/ sample_url_parse "localhost:8080/callback" = Err RelativeUrlWithoutBase.
Proof.
  apply (proj2 (CasClient_new_all_or_nothing sample_url_parse "http://login.case.edu"
                  "/cas/login" "/cas/logout" "/cas/serviceValidate" "localhost:8080/callback")
           RelativeUrlWithoutBase).
  reflexivity.
Defined.

(** * Further properties of the code *)

(** ** The response interpreter *)

(** What one step can do, read off [step]. *)
Lemma step_continue_expect st e :
  step st e = Continue ExpectSuccess ->
  st = ExpectSuccess \/ is_start_named "authenticationSuccess" e = true.
Proof.
  destruct e as [ev|x]; simpl; [|discriminate].
  destruct ev; try (intros H; injection H as ->; now left).
  - destruct (String.eqb (local_name name) "authenticationSuccess"); [now right|].
    destruct (String.eqb (local_name name) "authenticationFailure").
    + destruct (vec_index attributes 0); discriminate.
    + intros H; injection H as ->; now left.
  - destruct st; [discriminate|intros _; now left].
Qed.

Lemma step_break_cases st e o :
  step st e = Break o ->
  (exists x, e = Err x /\ o = Returned (Err (Xml x)))
  \/ (exists s, e = Ok (Characters s) /\ st = ExpectSuccess
                /\ o = Returned (Ok (Success s)))
  \/ (exists nm attrs ns, e = Ok (StartElement nm attrs ns)
        /\ local_name nm = "authenticationFailure"
        /\ ((exists a rest, attrs = a :: rest /\ o = Returned (Ok (Failure (value a))))
            \/ (attrs = [] /\ o = Panicked "index out of bounds"))).
Proof.
  destruct e as [ev|x]; simpl.
  - destruct ev; try discriminate.
    + destruct (String.eqb (local_name name) "authenticationSuccess") eqn:Hs;
        [discriminate|].
      destruct (String.eqb (local_name name) "authenticationFailure") eqn:Hf;
        [|discriminate].
      apply String.eqb_eq in Hf.
      intros H; right; right; exists name, attributes, ns; split; [reflexivity|].
      split; [exact Hf|].
      destruct attributes as [|a rest]; simpl in H; injection H as <-.
      * now right.
      * left; now exists a, rest.
    + destruct st; [discriminate|].
      intros H; injection H as <-; right; left; now exists s.
  - intros H; injection H as <-; left; now exists x.
Qed.

Lemma interpret_success_origin (events : list (result XmlEvent XmlError)) :
  forall st s,
  interpret st events = Returned (Ok (Success s)) ->
  exists pre post, events = pre ++ Ok (Characters s) :: post
    /\ (st = ExpectSuccess
        \/ Exists (fun e => is_start_named "authenticationSuccess" e = true) pre).
Proof.
  induction events as [|e rest IH]; intros st s H; simpl in H; [discriminate|].
  destruct (step st e) as [st'|o] eqn:Hstep.
  - destruct (IH st' s H) as (pre & post & -> & Hpre).
    exists (e :: pre), post; split; [reflexivity|].
    destruct Hpre as [-> | Hex]; [|right; now apply Exists_cons_tl].
    destruct (step_continue_expect _ _ Hstep) as [-> | He]; [now left|].
    right; now apply Exists_cons_hd.
  - subst o.
    destruct (step_break_cases _ _ _ Hstep)
      as [(x & _ & Ho) | [(s' & -> & -> & Ho) | (nm & attrs & ns & _ & _ & Hc)]].
    + discriminate.
    + injection Ho as <-; exists [], rest; split; [reflexivity|now left].
    + destruct Hc as [(a & r & _ & Ho) | (_ & Ho)]; discriminate.
Qed.

Lemma interpret_failure_origin (events : list (result XmlEvent XmlError)) :
  forall st r,
  interpret st events = Returned (Ok (Failure r)) ->
  r = sentinel
  \/ exists nm a attrs ns, In (Ok (StartElement nm (a :: attrs) ns)) events
       /\ local_name nm = "authenticationFailure" /\ value a = r.
Proof.
  induction events as [|e rest IH]; intros st r H; simpl in H.
  - injection H as <-; now left.
  - destruct (step st e) as [st'|o] eqn:Hstep.
    + destruct (IH st' r H) as [-> | (nm & a & attrs & ns & Hin & Hn & Hv)];
        [now left|right; exists nm, a, attrs, ns; split; [now right|now split]].
    + subst o.
      destruct (step_break_cases _ _ _ Hstep)
        as [(x & _ & Ho) | [(s' & _ & _ & Ho) | (nm & attrs & ns & He & Hn & Hc)]];
        try discriminate.
      destruct Hc as [(a & r' & -> & Ho) | (_ & Ho)]; [|discriminate].
      injection Ho as Hr; right; exists nm, a, r', ns.
      split; [left; now rewrite He|split; [exact Hn|now rewrite Hr]].
Qed.

Lemma interpret_error_origin (events : list (result XmlEvent XmlError)) :
  forall st e,
  interpret st events = Returned (Err e) -> exists x, e = Xml x /\ In (Err x) events.
Proof.
  induction events as [|ev rest IH]; intros st e H; simpl in H; [discriminate|].
  destruct (step st ev) as [st'|o] eqn:Hstep.
  - destruct (IH st' e H) as (x & -> & Hin); exists x; split; [reflexivity|now right].
  - subst o.
    destruct (step_break_cases _ _ _ Hstep)
      as [(x & -> & Ho) | [(s' & _ & _ & Ho) | (nm & attrs & ns & _ & _ & Hc)]].
    + injection Ho as ->; exists x; split; [reflexivity|now left].
    + discriminate.
    + destruct Hc as [(a & r & _ & Ho) | (_ & Ho)]; discriminate.
Qed.

Lemma interpret_panic_origin (events : list (result XmlEvent XmlError)) :
  forall st m,
  interpret st events = Panicked m ->
  m = "index out of bounds"
  /\ exists nm ns, In (Ok (StartElement nm [] ns)) events
       /\ local_name nm = "authenticationFailure".
Proof.
  induction events as [|ev rest IH]; intros st m H; simpl in H; [discriminate|].
  destruct (step st ev) as [st'|o] eqn:Hstep.
  - destruct (IH st' m H) as (-> & nm & ns & Hin & Hn).
    split; [reflexivity|exists nm, ns; split; [now right|exact Hn]].
  - subst o.
    destruct (step_break_cases _ _ _ Hstep)
      as [(x & _ & Ho) | [(s' & _ & _ & Ho) | (nm & attrs & ns & He & Hn & Hc)]];
      try discriminate.
    destruct Hc as [(a & r & _ & Ho) | (-> & Ho)]; [discriminate|].
    injection Ho as ->; split; [reflexivity|].
    exists nm, ns; split; [left; now rewrite He|exact Hn].
Qed.

(** X: the loop stops reading at the event it returns on: the events after
    it never change the outcome. *)
Theorem interpret_stops_reading (pre post : list (result XmlEvent XmlError)) :
  forall st, scan st pre = None -> interpret st (pre ++ post) = interpret st pre.
Proof.
  induction pre as [|e pre IH]; intros st H; simpl in *; [discriminate|].
  destruct (step st e); [now apply IH|reflexivity].
Qed.

Lemma interpret_inert_cons st e rest :
  is_inert e = true -> interpret st (e :: rest) = interpret st rest.
Proof.
  destruct e as [ev|x]; [|discriminate]; destruct ev; simpl; try discriminate;
    reflexivity.
Qed.

(** X: events other than errors, start elements and text (end tags,
    whitespace, CDATA, comments, processing instructions, document start
    and end) never matter: dropping them all leaves the outcome unchanged.
    In particular whitespace or CDATA after [authenticationSuccess] is not
    taken for the user name. *)
Theorem interpret_ignores_inert (events : list (result XmlEvent XmlError)) :
  forall st,
  interpret st (filter (fun e => negb (is_inert e)) events) = interpret st events.
Proof.
  induction events as [|e rest IH]; intros st; [reflexivity|].
  simpl filter; destruct (is_inert e) eqn:Hi; simpl negb; cbv iota.
  - rewrite interpret_inert_cons by exact Hi; apply IH.
  - simpl; destruct (step st e); [apply IH|reflexivity].
Qed.

(** ** [verify_ticket]: where each outcome comes from *)


(** X: an XML error reached by the loop (no earlier event ended it) makes
    [verify_ticket] return [Err (Xml x)] with that error. *)
Theorem verify_ticket_xml_error :
  forall http_get c ticket pre x rest,
  http_get (url_serialize (verify_request_url c ticket)) = Ok (pre ++ Err x :: rest) ->
  scan None_ pre <> None ->
  snd (verify_ticket http_get c ticket) = Returned (Err (Xml x)).
Proof.
  intros http_get c ticket pre x rest Hget Hpre.
  unfold verify_ticket; simpl; rewrite Hget.
  destruct (scan None_ pre) as [st|] eqn:Hscan; [|congruence].
  now rewrite (interpret_app _ _ _ _ Hscan).
Qed.

(** X: a [Success s] comes from a text event [s] of the response that
    follows an [authenticationSuccess] start element. *)
Theorem verify_ticket_success_origin :
  forall http_get c ticket s,
  snd (verify_ticket http_get c ticket) = Returned (Ok (Success s)) ->
  exists events pre post,
    http_get (url_serialize (verify_request_url c ticket)) = Ok events
    /\ events = pre ++ Ok (Characters s) :: post
    /\ Exists (fun e => is_start_named "authenticationSuccess" e = true) pre.
Proof.
  intros http_get c ticket s; unfold verify_ticket; simpl.
  destruct (http_get _) as [events|e]; [|discriminate].
  intros H; destruct (interpret_success_origin _ _ _ H) as (pre & post & Hev & Hpre).
  exists events, pre, post; split; [reflexivity|split; [exact Hev|]].
  destruct Hpre as [Hst|Hex]; [discriminate|exact Hex].
Qed.

(** X: a [Failure r] carries either the fixed fallback reason or the
    first attribute value of an [authenticationFailure] start element of
    the response. *)
Theorem verify_ticket_failure_origin :
  forall http_get c ticket r,
  snd (verify_ticket http_get c ticket) = Returned (Ok (Failure r)) ->
  r = sentinel
  \/ exists events nm a attrs ns,
       http_get (url_serialize (verify_request_url c ticket)) = Ok events
       /\ In (Ok (StartElement nm (a :: attrs) ns)) events
       /\ local_name nm = "authenticationFailure" /\ value a = r.
Proof.
  intros http_get c ticket r; unfold verify_ticket; simpl.
  destruct (http_get _) as [events|e]; [|discriminate].
  intros H; destruct (interpret_failure_origin _ _ _ H)
    as [-> | (nm & a & attrs & ns & Hin & Hn & Hv)]; [now left|].
  right; now exists events, nm, a, attrs, ns.
Qed.

(** X: the only errors of [verify_ticket] are the transport's error and an
    XML error of the event stream; it never fails with [Url_],
    [UnsupportedUriType] or [NoTicketFound]. *)
Theorem verify_ticket_error_origin :
  forall http_get c ticket e,
  snd (verify_ticket http_get c ticket) = Returned (Err e) ->
  (exists h, http_get (url_serialize (verify_request_url c ticket)) = Err h
             /\ e = Hyper h)
  \/ (exists events x, http_get (url_serialize (verify_request_url c ticket)) = Ok events
                       /\ e = Xml x /\ In (Err x) events).
Proof.
  intros http_get c ticket e; unfold verify_ticket; simpl.
  destruct (http_get _) as [events|h].
  - intros H; destruct (interpret_error_origin _ _ _ H) as (x & -> & Hin).
    right; now exists events, x.
  - intros H; injection H as <-; left; now exists h.
Qed.

(** X: [verify_ticket] panics only on an [authenticationFailure] start
    element without attributes in the response. *)
Theorem verify_ticket_panic_origin :
  forall http_get c ticket m,
  snd (verify_ticket http_get c ticket) = Panicked m ->
  m = "index out of bounds"
  /\ exists events nm ns,
       http_get (url_serialize (verify_request_url c ticket)) = Ok events
       /\ In (Ok (StartElement nm [] ns)) events
       /\ local_name nm = "authenticationFailure".
Proof.
  intros http_get c ticket m; unfold verify_ticket; simpl.
  destruct (http_get _) as [events|h]; [|discriminate].
  intros H; destruct (interpret_panic_origin _ _ _ H) as (-> & nm & ns & Hin & Hn).
  split; [reflexivity|now exists events, nm, ns].
Qed.

(** ** The form-urlencoded codec in general *)

Lemma app_sep_nonempty (a b : string) (c : ascii) :
  String.eqb (a ++ String c b)%string "" = false.
Proof. destruct a; reflexivity. Qed.

Lemma parse_piece_pair (n v : string) :
  parse_piece (byte_serialize n ++ "=" ++ byte_serialize v)%string = [(n, v)].
Proof.
  unfold parse_piece.
  change ("=" ++ byte_serialize v)%string with (String "=" (byte_serialize v)).
  rewrite app_sep_nonempty.
  destruct (byte_serialize_no_char n) as [_ He].
  rewrite split_first_eq_app by exact He.
  now rewrite !form_decode_byte_serialize.
Qed.

(** X: [query_pairs] after [set_query_from_pairs] gives back exactly the
    pairs set, whatever bytes their names and values hold: encoding with
    [form_urlencoded::serialize] and decoding with
    [form_urlencoded::parse] round-trip. *)
Theorem query_pairs_set_query_from_pairs :
  forall u pairs, query_pairs (set_query_from_pairs u pairs) = Some pairs.
Proof.
  intros u pairs; unfold query_pairs, set_query_from_pairs; cbn [query]; f_equal.
  induction pairs as [|[n v] rest IH]; [reflexivity|].
  destruct rest as [|p2 rest'].
  - cbn [form_serialize].
    rewrite form_parse_no_sep
      by (rewrite !no_char_app; simpl;
          now rewrite (proj1 (byte_serialize_no_char n)),
                      (proj1 (byte_serialize_no_char v))).
    apply parse_piece_pair.
  - change (form_serialize ((n, v) :: p2 :: rest'))
      with (byte_serialize n ++ "=" ++ byte_serialize v ++ "&"
            ++ form_serialize (p2 :: rest'))%string.
    rewrite (string_app_assoc (byte_serialize n)), (string_app_assoc (byte_serialize n ++ "=")%string).
    change ("&" ++ form_serialize (p2 :: rest'))%string
      with (String "&" (form_serialize (p2 :: rest'))).
    rewrite form_parse_app_sep
      by (rewrite !no_char_app; simpl;
          now rewrite (proj1 (byte_serialize_no_char n)),
                      (proj1 (byte_serialize_no_char v))).
    rewrite <- string_app_assoc, parse_piece_pair, IH; reflexivity.
Qed.

(** ** [verify_from_request] *)

(** X: [verify_from_request] either fails with [Url_], [UnsupportedUriType]
    or [NoTicketFound] without any request, or is exactly [verify_ticket]
    on some non-empty ticket: it issues at most one request, always the
    validation request. *)
Theorem verify_from_request_shape :
  forall url_parse http_get c req,
  (exists e, verify_from_request url_parse http_get c req = ([], Returned (Err e))
             /\ ((exists p, e = Url_ p) \/ e = UnsupportedUriType \/ e = NoTicketFound))
  \/ (exists t, t <> "" /\ verify_from_request url_parse http_get c req
                           = verify_ticket http_get c t).
Proof.
  intros url_parse http_get c req.
  assert (Hfrom : forall u,
    match query_pairs u with
    | None => ([], Returned (Err NoTicketFound))
    | Some queries =>
        if String.eqb (last_ticket queries) "" then ([], Returned (Err NoTicketFound))
        else verify_ticket http_get c (last_ticket queries)
    end = ([], Returned (Err NoTicketFound))
    \/ exists t, t <> "" /\
      match query_pairs u with
      | None => ([], Returned (Err NoTicketFound))
      | Some queries =>
          if String.eqb (last_ticket queries) "" then ([], Returned (Err NoTicketFound))
          else verify_ticket http_get c (last_ticket queries)
      end = verify_ticket http_get c t).
  { intros u; destruct (query_pairs u) as [qs|]; [|now left].
    destruct (String.eqb (last_ticket qs) "") eqn:He; [now left|].
    right; exists (last_ticket qs); split; [now apply String.eqb_neq|reflexivity]. }
  destruct (uri req) as [s|u|s|] eqn:Hu.
  - destruct (url_parse ("http://none" ++ s)%string) as [u|p] eqn:Hp.
    + rewrite (verify_from_request_url url_parse http_get c req u)
        by (right; now exists s).
      destruct (Hfrom u) as [H | H]; [left; exists NoTicketFound; now auto|now right].
    + left; exists (Url_ p); unfold verify_from_request; rewrite Hu, Hp.
      split; [reflexivity|left; now exists p].
  - rewrite (verify_from_request_url url_parse http_get c req u) by now left.
    destruct (Hfrom u) as [H | H]; [left; exists NoTicketFound; now auto|now right].
  - left; exists UnsupportedUriType; unfold verify_from_request; rewrite Hu; auto.
  - left; exists UnsupportedUriType; unfold verify_from_request; rewrite Hu; auto.
Qed.

(** X: the ticket sent for validation is the one received: the
    validation URL requested by [verify_from_request] has query pairs
    [service] and [ticket], and its [ticket] decodes to the value of the
    last [ticket] pair of the inbound query (decoded, then re-encoded). *)
Theorem verify_from_request_forwards_ticket :
  forall url_parse http_get c req u pre v post,
  (uri req = AbsoluteUri u
   \/ exists s, uri req = AbsolutePath s
                /\ url_parse ("http://none" ++ s)%string = Ok u) ->
  query_pairs u = Some (pre ++ ("ticket", v) :: post) ->
  Forall (fun p => fst p <> "ticket") post ->
  v <> "" ->
  exists u', fst (verify_from_request url_parse http_get c req) = [url_serialize u']
    /\ query_pairs u' = Some [("service", url_serialize (service_url c)); ("ticket", v)].
Proof.
  intros url_parse http_get c req u pre v post Hu Hq Hpost Hv.
  rewrite (verify_from_request_url _ _ _ _ _ Hu), Hq, last_ticket_last by exact Hpost.
  apply String.eqb_neq in Hv; rewrite Hv.
  exists (verify_request_url c v); split; [reflexivity|].
  unfold query_pairs, verify_request_url, set_query_from_pairs; cbn [query].
  now rewrite form_parse_service_ticket.
Qed.

(** ** The redirects *)

Lemma headers_get_set_same (name v : string) (hs : list (string * string)) :
  headers_get name (headers_set name v hs) = Some v.
Proof.
  induction hs as [|[n w] rest IH]; simpl.
  - unfold header_name_eqb; now rewrite String.eqb_refl.
  - destruct (header_name_eqb n name) eqn:E; simpl; rewrite E; [reflexivity|exact IH].
Qed.

Lemma headers_get_set_other (n0 name v : string) (hs : list (string * string)) :
  header_name_eqb n0 name = false ->
  headers_get n0 (headers_set name v hs) = headers_get n0 hs.
Proof.
  intros Hne; induction hs as [|[n w] rest IH]; simpl.
  - unfold header_name_eqb in *; rewrite String.eqb_sym; now rewrite Hne.
  - destruct (header_name_eqb n name) eqn:E; simpl.
    + assert (header_name_eqb n n0 = false) as ->; [|reflexivity].
      unfold header_name_eqb in *.
      apply String.eqb_eq in E; apply String.eqb_neq in Hne; apply String.eqb_neq.
      congruence.
    + destruct (header_name_eqb n n0); [reflexivity|exact IH].
Qed.

Lemma redirect_to_returned send target res resp body :
  redirect_to send target res = Returned (resp, body) ->
  body = "" /\ status resp = Found
  /\ headers_get "Location" (headers resp) = Some target
  /\ (forall n, header_name_eqb n "Location" = false ->
        headers_get n (headers resp) = headers_get n (headers res))
  /\ send resp "" = Ok tt.
Proof.
  unfold redirect_to; cbn [status headers].
  destruct (send _ "") as [[]|e] eqn:Hs; [|discriminate].
  intros H; injection H as <- <-.
  split; [reflexivity|split; [reflexivity|split; [apply headers_get_set_same|split]]].
  - intros n Hn; now apply headers_get_set_other.
  - exact Hs.
Qed.

Lemma redirect_to_panicked send target res m :
  redirect_to send target res = Panicked m ->
  m = unwrap_failed
  /\ exists e, send (mkResponse Found (headers_set "Location" target (headers res))) ""
               = Err e.
Proof.
  unfold redirect_to; cbn [status headers].
  destruct (send _ "") as [[]|e] eqn:Hs; [discriminate|].
  intros H; injection H as <-; split; [reflexivity|now exists e].
Qed.



(** * Witnesses of the further properties *)

Lemma interpret_stops_reading_witness :
  interpret None_
    ([Ok (StartElement (cas_name "authenticationFailure")
            [mkAttr (mkName "code" None None) "INVALID_TICKET"] cas_bindings)]
     ++ [Err (mkXmlError 3 1 "unexpected end of stream")])
  = Returned (Ok (Failure "INVALID_TICKET")).
Proof.
  rewrite interpret_stops_reading by reflexivity; reflexivity.
Defined.


Lemma verify_ticket_xml_error_witness :
  snd (verify_ticket
         (answer [Ok (StartDocument "1.0" "UTF-8" None);
                  Err (mkXmlError 1 40 "unexpected token")])
         sample_client "ST-1")
  = Returned (Err (Xml (mkXmlError 1 40 "unexpected token"))).
Proof.
  apply (verify_ticket_xml_error _ sample_client "ST-1"
           [Ok (StartDocument "1.0" "UTF-8" None)] (mkXmlError 1 40 "unexpected token") []).
  - reflexivity.
  - simpl; discriminate.
Defined.

Lemma verify_ticket_success_origin_witness :
  exists events pre post,
    answer alice_events (url_serialize (verify_request_url sample_client "ST-1")) = Ok events
    /\ events = pre ++ Ok (Characters "alice") :: post
    /\ Exists (fun e => is_start_named "authenticationSuccess" e = true) pre.
Proof.
  apply (verify_ticket_success_origin (answer alice_events) sample_client "ST-1" "alice").
  reflexivity.
Defined.

Lemma verify_ticket_failure_origin_witness :
  "INVALID_TICKET" = sentinel
  \/ exists events nm a attrs ns,
       answer invalid_ticket_events (url_serialize (verify_request_url sample_client "ST-1"))
         = Ok events
       /\ In (Ok (StartElement nm (a :: attrs) ns)) events
       /\ local_name nm = "authenticationFailure" /\ value a = "INVALID_TICKET".
Proof.
  apply (verify_ticket_failure_origin (answer invalid_ticket_events) sample_client "ST-1").
  reflexivity.
Defined.

Lemma verify_ticket_error_origin_witness :
  (exists h, unreachable (url_serialize (verify_request_url sample_client "ST-1")) = Err h
             /\ Hyper (mkHyperError "connection refused") = Hyper h)
  \/ (exists events x,
        unreachable (url_serialize (verify_request_url sample_client "ST-1")) = Ok events
        /\ Hyper (mkHyperError "connection refused") = Xml x /\ In (Err x) events).
Proof.
  apply (verify_ticket_error_origin unreachable sample_client "ST-1").
  reflexivity.
Defined.

Lemma verify_ticket_panic_origin_witness :
  "index out of bounds" = "index out of bounds"
  /\ exists events nm ns,
       answer no_attribute_failure_events
         (url_serialize (verify_request_url sample_client "ST-1")) = Ok events
       /\ In (Ok (StartElement nm [] ns)) events
       /\ local_name nm = "authenticationFailure".
Proof.
  apply (verify_ticket_panic_origin (answer no_attribute_failure_events) sample_client "ST-1").
  reflexivity.
Defined.

Lemma verify_from_request_forwards_ticket_witness :
  exists u', fst (verify_from_request sample_url_parse (answer alice_events) sample_client
                    (mkRequest (AbsolutePath "/cb?ticket=ST%2B1&x=y")))
             = [url_serialize u']
    /\ query_pairs u' = Some [("service", url_serialize (service_url sample_client));
                              ("ticket", "ST+1")].
Proof.
  apply (verify_from_request_forwards_ticket sample_url_parse (answer alice_events)
           sample_client (mkRequest (AbsolutePath "/cb?ticket=ST%2B1&x=y"))
           (mkUrl "http" "//none/cb" (Some "ticket=ST%2B1&x=y") None)
           [] "ST+1" [("x", "y")]).
  - right; eexists; split; reflexivity.
  - reflexivity.
  - constructor; [simpl; discriminate|constructor].
  - discriminate.
Defined.


